(** * Postpone: deferred loading of off-screen media

    A shallow embedding of [index.js] (the [Postpone] constructor and its
    prototype methods) together with the properties of its visibility
    tracking and activation engine.

    The page is a store of DOM nodes addressed by reference; the engine
    instance ([this]) and the page are threaded through a small state and
    exception monad, because the JavaScript mutates both in place and a
    thrown [TypeError] leaves every earlier mutation behind.

    What the browser decides and the source only calls is a parameter of
    the development (class [Host]): the matching of author-supplied
    selectors, the serialisation of a node, and the clock.

    Conventions of the model:
    - offsets, scroll positions and heights are integers;
    - the group index [this.scrollElements] is a plain object used as a
      map; it is modelled by its own properties in the order of their
      creation, a lookup falls back on the members of [Object.prototype],
      and [for ... in] visits the own keys, array indices first;
    - a function object made by [bind] is identified by the number of
      function objects made before it. *)

From Stdlib Require Import ZArith String Ascii List Lia.
From stdpp Require Import gmap strings list fin_maps pretty sorting.

Open Scope string_scope.

(** ** JavaScript primitives used by the source *)
Module JS.

(** [String.prototype.toLowerCase] on the ASCII range. *)
Definition lower_ascii (c : ascii) : ascii :=
  let n := nat_of_ascii c in
  if (65 <=? n)%nat && (n <=? 90)%nat then ascii_of_nat (n + 32) else c.

Fixpoint toLowerCase (s : string) : string :=
  match s with
  | EmptyString => EmptyString
  | String c r => String (lower_ascii c) (toLowerCase r)
  end.

(** [s.indexOf(t)]: position of the first occurrence of [t] in [s], or -1. *)
Definition indexOf (s t : string) : Z :=
  match String.index 0 t s with
  | Some i => Z.of_nat i
  | None => (-1)%Z
  end.

(** The bitwise complement [~x] and the truthiness of a number. *)
Definition bitnot (x : Z) : Z := Z.lnot x.
Definition truthy_num (x : Z) : bool := negb (x =? 0)%Z.

(** Truthiness of a value that is a string or [null]. *)
Definition truthy_str (v : option string) : bool :=
  match v with
  | Some s => negb (String.eqb s "")
  | None => false
  end.

(** [String(v)] for a value that is a string or [null], as happens when
    the value is used as a property key or passed where a string is
    expected. *)
Definition to_string (v : option string) : string :=
  match v with
  | Some s => s
  | None => "null"
  end.

(** [String(n)] for an integral number. *)
Definition string_of_num (n : Z) : string := pretty n.

(** The members that a plain object inherits from [Object.prototype], each
    with the [length] of its value: the number of parameters of the function,
    and no [length] for the object that [__proto__] yields.  None of them is
    enumerable. *)
Definition Object_prototype : list (string * option nat) :=
  [ ("constructor", Some 1); ("__defineGetter__", Some 2);
    ("__defineSetter__", Some 2); ("hasOwnProperty", Some 1);
    ("__lookupGetter__", Some 1); ("__lookupSetter__", Some 1);
    ("isPrototypeOf", Some 1); ("propertyIsEnumerable", Some 1);
    ("toString", Some 0); ("valueOf", Some 0); ("__proto__", None);
    ("toLocaleString", Some 0) ].

Definition inherited (key : string) : option (option nat) :=
  match List.find (fun m => String.eqb (fst m) key) Object_prototype with
  | Some m => Some (snd m)
  | None => None
  end.

(** An array index: the canonical decimal numeral of an integer below
    [2^32 - 1]. *)
Definition digit (c : ascii) : option N :=
  let n := N_of_ascii c in
  if (48 <=? n)%N && (n <=? 57)%N then Some (n - 48)%N else None.

Fixpoint digits (s : string) (acc : N) : option N :=
  match s with
  | EmptyString => Some acc
  | String c r =>
      match digit c with
      | Some x => digits r (10 * acc + x)%N
      | None => None
      end
  end.

Definition array_index (key : string) : option N :=
  match key with
  | EmptyString => None
  | _ =>
      match digits key 0 with
      | Some n =>
          if (n <? 4294967295)%N && String.eqb (pretty n) key then Some n else None
      | None => None
      end
  end.

(** The order in which [for ( key in object )] visits the own keys of a
    plain object, given in the order of their creation: the array indices in
    ascending order, then the other keys as they were created. *)
Definition index_before (a b : string) : Prop :=
  (default 0 (array_index a) <= default 0 (array_index b))%N.

#[export] Instance index_before_dec : RelDecision index_before.
Proof. intros a b. unfold index_before. apply _. Defined.

Definition for_in (keys : list string) : list string :=
  (merge_sort index_before
     (List.filter (fun k => bool_decide (is_Some (array_index k))) keys)
   ++ List.filter (fun k => negb (bool_decide (is_Some (array_index k)))) keys)%list.

End JS.

(** ** The host document *)
Module DOM.

(** A reference to a DOM node. *)
Definition node_id := nat.

(** The identity of a function object registered as an event listener. *)
Definition callback := nat.

Record node := Node {
  tagName : string;
  attributes : gmap string string;
  children : list node_id;
  offsetTop : Z;
  offsetParent : option node_id;
  scrollTop : Z;
  listeners : list callback   (* listeners of the "scroll" event *)
}.

#[export] Instance node_inhabited : Inhabited node :=
  populate (Node "" ∅ [] 0 None 0 []).

Record dom := Dom {
  nodes : gmap node_id node;
  elements_in_order : list node_id;   (* all elements, in document order *)
  body : node_id;                     (* document.body *)
  clientHeight : Z;                   (* document.documentElement.clientHeight *)
  window_listeners : list callback    (* "scroll" listeners of [window] *)
}.

Definition get (d : dom) (n : node_id) : node := nodes d !!! n.

Definition update (n : node_id) (f : node -> node) (d : dom) : dom :=
  Dom (<[n := f (get d n)]> (nodes d)) (elements_in_order d) (body d)
      (clientHeight d) (window_listeners d).

Definition with_attributes (f : gmap string string -> gmap string string)
    (x : node) : node :=
  Node (tagName x) (f (attributes x)) (children x) (offsetTop x)
       (offsetParent x) (scrollTop x) (listeners x).

Definition with_listeners (f : list callback -> list callback) (x : node) : node :=
  Node (tagName x) (attributes x) (children x) (offsetTop x)
       (offsetParent x) (scrollTop x) (f (listeners x)).

Definition with_window_listeners (f : list callback -> list callback)
    (d : dom) : dom :=
  Dom (nodes d) (elements_in_order d) (body d) (clientHeight d)
      (f (window_listeners d)).

Definition getAttribute (d : dom) (n : node_id) (a : string) : option string :=
  attributes (get d n) !! a.

Definition setAttribute (n : node_id) (a v : string) (d : dom) : dom :=
  update n (with_attributes (insert a v)) d.

Definition removeAttribute (n : node_id) (a : string) (d : dom) : dom :=
  update n (with_attributes (delete a)) d.

(** [addEventListener] ignores a listener that is already registered;
    [removeEventListener] drops the registered one, and does nothing for a
    callback that is [undefined]. *)
Definition add_listener (cb : callback) (l : list callback) : list callback :=
  if decide (cb ∈ l) then l else l ++ [cb].

Fixpoint remove_first (cb : callback) (l : list callback) : list callback :=
  match l with
  | [] => []
  | x :: r => if decide (x = cb) then r else x :: remove_first cb r
  end.

Definition remove_listener (cb : option callback) (l : list callback)
    : list callback :=
  match cb with
  | Some c => remove_first c l
  | None => l
  end.

(** [document.querySelectorAll] for a list of type selectors: the elements
    whose lower-cased tag name is one of [tags], in document order. *)
Definition querySelectorAll (d : dom) (tags : list string) : list node_id :=
  List.filter (fun n => bool_decide (JS.toLowerCase (tagName (get d n)) ∈ tags))
              (elements_in_order d).

(** What [document.querySelector] does with an author-supplied selector. *)
Inductive query_result :=
| Found (n : node_id)
| NotFound          (* returns null *)
| InvalidSelector.  (* throws a SyntaxError *)

End DOM.

Import DOM.

(** The services of the browser that the source calls and that are not
    determined by the node store: selector matching, serialisation of a node
    to markup, and the system clock ([getTime k] is the value of the k-th
    evaluation of [new Date().getTime()]). *)
Class Host := {
  querySelector : dom -> string -> query_result;
  outerHTML : dom -> node_id -> string;
  getTime : nat -> Z
}.

(** ** The engine *)
Module Postpone.

(** A scroll container: the string ["window"] or a node. *)
Inductive container :=
| Window
| Element (n : node_id).

#[export] Instance container_eq_dec : EqDecision container.
Proof. solve_decision. Defined.

(** The value stored under an identifier of [this.scrollElements]: an array
    of postponed elements carrying two extra properties. *)
Record group := Group {
  members : list node_id;
  element : container;
  callback : option DOM.callback   (* [undefined] until [postpone] binds *)
}.

(** The fields of a [Postpone] instance. *)
Record engine := Engine {
  elements : list node_id;
  scrollElements : list (string * group);
  timeout : option nat
}.

(** The page, the instance, and the bookkeeping of the runtime: how often
    the clock was read, how many function objects [bind] has created, and
    the pending timeouts with the string each one captured. *)
Record state := State {
  page : dom;
  this : engine;
  clock_reads : nat;
  bound_functions : nat;
  timers : list (nat * string);
  timer_ids : nat
}.

Inductive exn := TypeError | SyntaxError.

(** How a call ends: it returns, it throws (the state reached so far
    stays), or it never ends. *)
Inductive completion (A : Type) :=
| Return (a : A) (s : state)
| Throw (e : exn) (s : state)
| Diverge.
Arguments Return {A} a s.
Arguments Throw {A} e s.
Arguments Diverge {A}.

Definition M (A : Type) : Type := state -> completion A.

Definition ret {A} (a : A) : M A := fun s => Return a s.

Definition bind {A B} (c : M A) (k : A -> M B) : M B :=
  fun s =>
    match c s with
    | Return a s' => k a s'
    | Throw e s' => Throw e s'
    | Diverge => Diverge
    end.

Definition throw {A} (e : exn) : M A := fun s => Throw e s.
Definition diverge {A} : M A := fun _ => Diverge.
Definition gets {A} (f : state -> A) : M A := fun s => Return (f s) s.
Definition modify (f : state -> state) : M unit := fun s => Return tt (f s).

Arguments ret {A} a _ /.
Arguments bind {A B} c k _ /.
Arguments throw {A} e _ /.
Arguments diverge {A} _ /.
Arguments gets {A} f _ /.
Arguments modify f _ /.

Declare Scope js_scope.
Delimit Scope js_scope with js.
Notation "x <- c ;; k" := (bind c (fun x => k))
  (at level 100, c at next level, right associativity) : js_scope.
Notation "c ;; k" := (bind c (fun _ => k))
  (at level 100, right associativity) : js_scope.
Open Scope js_scope.

(** The state a call leaves behind, however it ends. *)
Definition final {A} (c : completion A) : option state :=
  match c with
  | Return _ s => Some s
  | Throw _ s => Some s
  | Diverge => None
  end.

(** A call ends, by returning or by throwing, in a state that satisfies [Q]. *)
Definition ends_with {A} (Q : state -> Prop) (r : completion A) : Prop :=
  match r with
  | Return _ s | Throw _ s => Q s
  | Diverge => False
  end.

(** A call started in a state that satisfies [P] ends in one that does. *)
Definition preserves {A} (P : state -> Prop) (c : M A) : Prop :=
  forall s, P s -> ends_with P (c s).

(** [for ( i = 0; i < xs.length; i++ ) body( xs[ i ] )] over an array that
    the body does not resize. *)
Fixpoint for_each {A} (xs : list A) (body : A -> M unit) : M unit :=
  match xs with
  | [] => ret tt
  | x :: r => body x ;; for_each r body
  end.

(** [for ( i = from; ...; i++ ) body( i )], executed [count] times. *)
Fixpoint for_count (from count : nat) (body : nat -> M unit) : M unit :=
  match count with
  | O => ret tt
  | S c => body from ;; for_count (S from) c body
  end.

(** *** State accessors *)
Definition with_page (f : dom -> dom) (s : state) : state :=
  State (f (page s)) (this s) (clock_reads s) (bound_functions s)
        (timers s) (timer_ids s).

Definition with_this (f : engine -> engine) (s : state) : state :=
  State (page s) (f (this s)) (clock_reads s) (bound_functions s)
        (timers s) (timer_ids s).

Definition set_elements (l : list node_id) (e : engine) : engine :=
  Engine l (scrollElements e) (timeout e).

Definition set_scrollElements (g : list (string * group)) (e : engine) : engine :=
  Engine (elements e) g (timeout e).

Definition set_timeout (t : option nat) (e : engine) : engine :=
  Engine (elements e) (scrollElements e) t.

(** Own-property access on [this.scrollElements]. *)
Fixpoint lookup_group (id : string) (idx : list (string * group)) : option group :=
  match idx with
  | [] => None
  | (k, g) :: r => if String.eqb k id then Some g else lookup_group id r
  end.

Fixpoint alter_group (id : string) (f : group -> group)
    (idx : list (string * group)) : list (string * group) :=
  match idx with
  | [] => []
  | (k, g) :: r =>
      if String.eqb k id then (k, f g) :: r else (k, g) :: alter_group id f r
  end.

(** The value of [this.scrollElements[ id ]], a lookup on a plain object:
    an own property, else a member inherited from [Object.prototype], else
    [undefined]. *)
Inductive property :=
| Own (g : group)
| Inherited (length : option nat)
| Undefined.

Definition get_property (id : string) (idx : list (string * group)) : property :=
  match lookup_group id idx with
  | Some g => Own g
  | None =>
      match JS.inherited id with
      | Some length => Inherited length
      | None => Undefined
      end
  end.

Definition push_member (el : node_id) (g : group) : group :=
  Group (members g ++ [el]) (element g) (callback g).

Definition set_callback (cb : DOM.callback) (g : group) : group :=
  Group (members g) (element g) (Some cb).

(** DOM calls lifted to the monad. *)
Definition getAttribute (n : node_id) (a : string) : M (option string) :=
  gets (fun s => DOM.getAttribute (page s) n a).
Definition setAttribute (n : node_id) (a v : string) : M unit :=
  modify (with_page (DOM.setAttribute n a v)).
Definition removeAttribute (n : node_id) (a : string) : M unit :=
  modify (with_page (DOM.removeAttribute n a)).
Definition lowerTagName (n : node_id) : M string :=
  gets (fun s => JS.toLowerCase (tagName (DOM.get (page s) n))).

(** [target.addEventListener( "scroll", cb )] and its inverse, where the
    target is [window] or a node. *)
Definition addEventListener (target : container) (cb : DOM.callback) : M unit :=
  match target with
  | Window => modify (with_page (with_window_listeners (add_listener cb)))
  | Element n => modify (with_page (update n (with_listeners (add_listener cb))))
  end.

Definition removeEventListener (target : container) (cb : option DOM.callback)
    : M unit :=
  match target with
  | Window => modify (with_page (with_window_listeners (remove_listener cb)))
  | Element n => modify (with_page (update n (with_listeners (remove_listener cb))))
  end.

(** [this.tags], and the type selectors it lists. *)
Definition tags : string :=
  "audio, embed, iframe, img, image, picture, use, video, tref".

Definition tag_list : list string :=
  ["audio"; "embed"; "iframe"; "img"; "image"; "picture"; "use"; "video"; "tref"].

Definition index (s : state) : list (string * group) := scrollElements (this s).

(** [e.srcElement] of a scroll event: [window.document] or a node. *)
Inductive event_source :=
| SrcDocument
| SrcNode (n : node_id).

Section Methods.
Context `{Host}.

(** *** [Postpone.prototype.getElements] *)

(** One turn of the loop over [matches]. *)
Definition keep_postponed (d : dom) (elements : list node_id) (m : node_id)
    : list node_id :=
  match DOM.getAttribute d m "postpone" with
  | Some postpone =>
      if negb (String.eqb postpone "false") then elements ++ [m] else elements
  | None => elements   (* typeof null is not "string" *)
  end.

Definition getElements : M (list node_id) :=
  d <- gets page ;;
  let matches := querySelectorAll d tag_list in
  let elements := fold_left (keep_postponed d) matches [] in
  modify (with_this (set_elements elements)) ;;
  ret elements.

(** *** [Postpone.prototype.getScrollElements] *)

(** [new Date().getTime()] *)
Definition now : M Z :=
  k <- gets clock_reads ;;
  modify (fun s => State (page s) (this s) (S k) (bound_functions s)
                         (timers s) (timer_ids s)) ;;
  ret (getTime k).

(** The scroll element of a postponed element and its identifier. *)
Definition locate (element : node_id) : M (container * string) :=
  selector <- getAttribute element "data-scroll-element" ;;
  if JS.truthy_str selector then
    d <- gets page ;;
    match querySelector d (JS.to_string selector) with
    | InvalidSelector => throw SyntaxError
    | NotFound => throw TypeError   (* null.getAttribute *)
    | Found scrollElement =>
        id <- getAttribute scrollElement "data-id" ;;
        if JS.truthy_str id then ret (Element scrollElement, JS.to_string id)
        else
          t <- now ;;
          setAttribute scrollElement "data-id" (JS.string_of_num t) ;;
          ret (Element scrollElement, JS.string_of_num t)
    end
  else ret (Window, "window").

(** The body of the loop over [this.elements]. *)
Definition group_element (element : node_id) : M unit :=
  located <- locate element ;;
  let scrollElement := fst located in
  let id := snd located in
  idx <- gets index ;;
  match get_property id idx with
  | Own _ =>
      modify (with_this (set_scrollElements
                           (alter_group id (push_member element) idx)))
  | Inherited _ => throw TypeError   (* truthy, and without a method [push] *)
  | Undefined =>
      modify (with_this (set_scrollElements
                           (idx ++ [(id, Group [element] scrollElement None)])))
  end.

Definition getScrollElements : M unit :=
  modify (with_this (set_scrollElements [])) ;;
  elements <- gets (fun s => elements (this s)) ;;
  for_each elements group_element.

(** *** [Postpone.prototype.stringifyElements] *)
Definition stringifyElements (d : dom) (elements : list node_id) : string :=
  fold_left (fun elementsString e => elementsString ++ outerHTML d e)
            elements "".

(** *** [Postpone.prototype.offsetTop] *)

(** The [while] loop; [temp] is a node, or [null] once the chain of offset
    parents is exhausted.  [None] stands for a loop that does not end. *)
Fixpoint offsetTop_loop (fuel : nat) (d : dom) (temp : option node_id) (o : Z)
    : option Z :=
  match temp with
  | None => Some o
  | Some t =>
      if String.eqb (JS.toLowerCase (tagName (DOM.get d t))) "body" then Some o
      else
        match fuel with
        | O => None
        | S fuel' =>
            offsetTop_loop fuel' d (offsetParent (DOM.get d t))
                           (o + DOM.offsetTop (DOM.get d t))
        end
  end.

(** A chain of offset parents that ends visits every node at most once,
    so as many turns as the page has nodes are enough. *)
Definition offsetTop (d : dom) (el : option node_id) : option Z :=
  offsetTop_loop (size (nodes d)) d el 0.

(** *** [Postpone.prototype.isVisible] *)
Definition isVisible (d : dom) (el : node_id) (scrollElement : option container)
    : option bool :=
  let scrollElement := default Window scrollElement in
  let scrollElement :=
    match scrollElement with
    | Window => body d
    | Element n => n
    end in
  let viewPortHeight := clientHeight d in
  match offsetTop d (Some el), offsetTop d (Some scrollElement) with
  | Some top, Some offset =>
      let scrollHeight := (scrollTop (DOM.get d scrollElement) + offset)%Z in
      Some (viewPortHeight + scrollHeight >=? top)%Z
  | _, _ => None
  end.

(** [this.isVisible( undefined, scrollElement )]: the loop of [offsetTop]
    does not run for [undefined], which leaves 0 as [top]. *)
Definition isVisible_undefined (d : dom) (scrollElement : option container)
    : option bool :=
  let scrollElement := default Window scrollElement in
  let scrollElement :=
    match scrollElement with
    | Window => body d
    | Element n => n
    end in
  let viewPortHeight := clientHeight d in
  match offsetTop d None, offsetTop d (Some scrollElement) with
  | Some top, Some offset =>
      let scrollHeight := (scrollTop (DOM.get d scrollElement) + offset)%Z in
      Some (viewPortHeight + scrollHeight >=? top)%Z
  | _, _ => None
  end.

Definition visible (el : node_id) (scrollElement : option container) : M bool :=
  d <- gets page ;;
  match isVisible d el scrollElement with
  | Some b => ret b
  | None => diverge
  end.

(** *** [Postpone.prototype.load] *)

(** [a && b] and [if ( c ) t else e] on conditions that read the page. *)
Definition andM (a b : M bool) : M bool :=
  x <- a ;; if x then b else ret false.

Definition ifM (c : M bool) (t e : M unit) : M unit :=
  x <- c ;; if x then t else e.

(** [~list.indexOf( el.tagName.toLowerCase() )] as a condition. *)
Definition listed (list : string) (el : node_id) : M bool :=
  tag <- lowerTagName el ;;
  ret (JS.truthy_num (JS.bitnot (JS.indexOf list tag))).

Definition tag_is (el : node_id) (name : string) : M bool :=
  tag <- lowerTagName el ;;
  ret (String.eqb tag name).

(** [el.getAttribute( a )] as a condition. *)
Definition has_attribute (el : node_id) (a : string) : M bool :=
  v <- getAttribute el a ;;
  ret (JS.truthy_str v).

(** [el.children.length], as a number and as a condition. *)
Definition children_length (el : node_id) : M nat :=
  gets (fun s => length (children (DOM.get (page s) el))).

Definition has_children (el : node_id) : M bool :=
  n <- children_length el ;;
  ret (negb (n =? 0)%nat).

(** [el.setAttribute( to, el.getAttribute( from ) )] *)
Definition copy_attribute (el : node_id) (from to : string) : M unit :=
  v <- getAttribute el from ;;
  setAttribute el to (JS.to_string v).

(** [child = el.children[ i ]], then the first use of [child.tagName]. *)
Definition child_at (el : node_id) (i : nat) : M node_id :=
  cs <- gets (fun s => children (DOM.get (page s) el)) ;;
  match cs !! i with
  | Some child => ret child
  | None => throw TypeError   (* undefined.tagName *)
  end.

(** The body of the loop over the children of an [audio] or [video]. *)
Definition load_media_child (el : node_id) (i : nat) : M unit :=
  child <- child_at el i ;;
  ifM (andM (tag_is child "source") (has_attribute child "data-src"))
      (copy_attribute child "data-src" "src")
      (ret tt).

(** The body of the loop over the children of a [picture]. *)
Definition load_picture_child (el : node_id) (i : nat) : M unit :=
  child <- child_at el i ;;
  ifM (tag_is child "source")
      (ifM (has_attribute child "data-src")
           (copy_attribute child "data-src" "src")
           (ret tt) ;;
       ifM (has_attribute child "data-srcset")
           (copy_attribute child "data-srcset" "srcset")
           (ret tt))
      (ret tt).

(** [for ( i = 0; i <= el.children.length; i++ ) body( i )]: the bound is
    inclusive, and no body changes the number of children. *)
Definition for_children_inclusive (el : node_id) (body : nat -> M unit) : M unit :=
  n <- children_length el ;;
  for_count 0 (S n) body.

Definition load (el : node_id) : M node_id :=
  removeAttribute el "postpone" ;;
  ifM (andM (listed "audio, embed, iframe, img, picture, video" el)
            (has_attribute el "data-src"))
      (copy_attribute el "data-src" "src")
      (ret tt) ;;
  ifM (andM (listed "image, tref, use" el) (has_attribute el "data-xlink:href"))
      (copy_attribute el "data-xlink:href" "xlink:href")
  (ifM (andM (listed "audio, video" el) (has_children el))
      (for_children_inclusive el (load_media_child el))
  (ifM (andM (tag_is el "picture") (has_children el))
      (for_children_inclusive el (load_picture_child el))
      (ret tt))) ;;
  ret el.

(** *** [Postpone.prototype.scrollHandler] *)

(** [if ( this.isVisible( element, scrollElement ) ) this.load( element )] *)
Definition load_if_visible (scrollElement : container) (element : node_id) : M unit :=
  v <- visible element (Some scrollElement) ;;
  if v then load element ;; ret tt else ret tt.

(** The same statement in a turn in which [elements[ i ]] is [undefined],
    as it is for every index when [elements] is a member inherited from
    [Object.prototype]: [load( undefined )] throws on [el.removeAttribute]. *)
Definition load_undefined_if_visible (scrollElement : container) : M unit :=
  d <- gets page ;;
  match isVisible_undefined d (Some scrollElement) with
  | Some true => throw TypeError
  | Some false => ret tt
  | None => diverge
  end.

Definition scrollHandler (srcElement : event_source) : M unit :=
  located <-
    match srcElement with
    | SrcDocument => ret (Window, "window")
    | SrcNode n =>
        id <- getAttribute n "data-id" ;;
        ret (Element n, JS.to_string id)
    end ;;
  let scrollElement := fst located in
  idx <- gets index ;;
  match get_property (snd located) idx with
  | Undefined => throw TypeError   (* undefined.length *)
  | Own elements =>
      for_each (members elements) (load_if_visible scrollElement)
  | Inherited length =>
      (* [i < undefined] is false: without a [length] the loop does not run *)
      for_count 0 (default 0 length)
                (fun _ => load_undefined_if_visible scrollElement)
  end.

(** *** [Postpone.prototype.postpone] *)

(** The keys that [for ( id in this.scrollElements )] enumerates: the own
    keys, the members of [Object.prototype] not being enumerable. *)
Definition enumerate : M (list string) :=
  gets (fun s => JS.for_in (map fst (index s))).

(** The target of the listener of group [id]: [window] for the key
    ["window"], otherwise the group's [element], which has the listener
    methods only if it is a node. *)
Definition listener_target (id : string) (g : group) : M container :=
  if String.eqb id "window" then ret Window
  else
    match element g with
    | Element n => ret (Element n)
    | Window => throw TypeError
    end.

Definition unbind (id : string) : M unit :=
  idx <- gets index ;;
  match lookup_group id idx with
  | None => throw TypeError
  | Some g =>
      target <- listener_target id g ;;
      removeEventListener target (callback g)
  end.

(** [this.scrollHandler.bind( this )]: a new function object. *)
Definition bind_handler : M DOM.callback :=
  k <- gets bound_functions ;;
  modify (fun s => State (page s) (this s) (clock_reads s) (S k)
                         (timers s) (timer_ids s)) ;;
  ret k.

Definition attach (id : string) : M unit :=
  idx <- gets index ;;
  match lookup_group id idx with
  | None => throw TypeError
  | Some g =>
      cb <- bind_handler ;;
      modify (with_this (set_scrollElements
                           (alter_group id (set_callback cb) idx))) ;;
      target <- listener_target id g ;;
      addEventListener target cb
  end.

Definition postpone : M unit :=
  ids <- enumerate ;;
  for_each ids unbind ;;
  elements <- gets (fun s => elements (this s)) ;;
  if negb (length elements =? 0)%nat then
    getElements ;;
    getScrollElements ;;
    ids <- enumerate ;;
    for_each ids attach
  else ret tt.

(** *** [Postpone.prototype.watch], [start] and [stop] *)

(** [this.timeout = window.setTimeout( ..., 500 )], where the function
    passed captures [newElementsString].  Timer identifiers are positive. *)
Definition setTimeout (newElementsString : string) : M unit :=
  modify (fun s =>
    let id := S (timer_ids s) in
    State (page s) (set_timeout (Some id) (this s)) (clock_reads s)
          (bound_functions s) (timers s ++ [(id, newElementsString)]) id).

Definition watch (elementsString : option string) : M unit :=
  getElements ;;
  newElementsString <-
    gets (fun s => stringifyElements (page s) (elements (this s))) ;;
  (if JS.truthy_str elementsString
      && negb (String.eqb (JS.to_string elementsString) newElementsString)
   then postpone else ret tt) ;;
  setTimeout newElementsString.

(** [if ( this.timeout )] *)
Definition timeout_set (s : state) : bool :=
  match timeout (this s) with
  | Some (S _) => true
  | _ => false
  end.

Definition clearTimeout (id : option nat) : M unit :=
  modify (fun s =>
    State (page s) (this s) (clock_reads s) (bound_functions s)
          (List.filter (fun t => negb (bool_decide (Some (fst t) = id))) (timers s))
          (timer_ids s)).

Definition stop : M unit :=
  running <- gets timeout_set ;;
  if running then
    id <- gets (fun s => timeout (this s)) ;;
    clearTimeout id
  else ret tt.

Definition start : M unit :=
  running <- gets timeout_set ;;
  (if running then stop else ret tt) ;;
  watch None.

(** The browser runs the function of a pending timeout: one poll tick. *)
Definition tick (id : nat) : M unit :=
  ts <- gets timers ;;
  match List.find (fun t => (fst t =? id)%nat) ts with
  | None => ret tt
  | Some t =>
      clearTimeout (Some id) ;;
      watch (Some (snd t))
  end.

(** *** The constructor's [init] *)
Definition sweep (id : string) : M unit :=
  idx <- gets index ;;
  match lookup_group id idx with
  | None => throw TypeError
  | Some g => for_each (members g) (load_if_visible (element g))
  end.

Definition init : M unit :=
  getElements ;;
  getScrollElements ;;
  ids <- enumerate ;;
  for_each ids sweep ;;
  postpone ;;
  start.

End Methods.

(** ** What the specification says, in its own words *)
Section Specification.
Context `{Host}.

(** Discovery: an allow-listed tag, and a marker that is present and is not
    the string "false". *)
Definition eligible (d : dom) (n : node_id) : bool :=
  bool_decide (JS.toLowerCase (tagName (DOM.get d n)) ∈ tag_list)
  && match DOM.getAttribute d n "postpone" with
     | Some marker => negb (String.eqb marker "false")
     | None => false
     end.

Definition discovery (d : dom) : list node_id :=
  List.filter (eligible d) (elements_in_order d).

(** The cumulative top offset: the sum of the offsets along the chain of
    positioned ancestors, up to and excluding a [body]. *)
Inductive cumulative_offset (d : dom) : option node_id -> Z -> Prop :=
| offset_end : cumulative_offset d None 0
| offset_body t :
    JS.toLowerCase (tagName (DOM.get d t)) = "body" ->
    cumulative_offset d (Some t) 0
| offset_step t x o :
    nodes d !! t = Some x ->
    JS.toLowerCase (tagName x) <> "body" ->
    cumulative_offset d (offsetParent x) o ->
    cumulative_offset d (Some t) (DOM.offsetTop x + o).

(** The nodes whose offsets the loop of [offsetTop] adds up. *)
Inductive offset_chain (d : dom) : option node_id -> list node_id -> Prop :=
| chain_end : offset_chain d None []
| chain_body t :
    JS.toLowerCase (tagName (DOM.get d t)) = "body" ->
    offset_chain d (Some t) []
| chain_step t x l :
    nodes d !! t = Some x ->
    JS.toLowerCase (tagName x) <> "body" ->
    offset_chain d (offsetParent x) l ->
    offset_chain d (Some t) (t :: l).

Definition sum_offsets (d : dom) (l : list node_id) : Z :=
  fold_right (fun t z => (DOM.offsetTop (DOM.get d t) + z)%Z) 0%Z l.

(** The node whose scroll position governs a container. *)
Definition container_node (d : dom) (c : container) : node_id :=
  match c with
  | Window => body d
  | Element n => n
  end.

(** A call started in a state that satisfies [K] returns in one that does. *)
Definition returns_keeping {A} (K : state -> Prop) (c : M A) : Prop :=
  forall s, K s -> exists a s', c s = Return a s' /\ K s'.

(** The element has the tag and the children it has in [s0]. *)
Definition same_shape (s0 : state) (el : node_id) (s : state) : Prop :=
  tagName (DOM.get (page s) el) = tagName (DOM.get (page s0) el)
  /\ children (DOM.get (page s) el) = children (DOM.get (page s0) el).

(** The deferred attributes and the attributes they are copied to. *)
Definition copy_pairs : list (string * string) :=
  [("data-src", "src"); ("data-srcset", "srcset"); ("data-xlink:href", "xlink:href")].

(** Node [n] holds in [to] the value of its [from]; node [n] has no marker. *)
Definition copied (s : state) (n : node_id) (from to : string) : Prop :=
  is_Some (nodes (page s) !! n)
  /\ DOM.getAttribute (page s) n to
     = Some (JS.to_string (DOM.getAttribute (page s) n from)).

Definition marker_removed (s : state) (n : node_id) : Prop :=
  is_Some (nodes (page s) !! n) /\ DOM.getAttribute (page s) n "postpone" = None.

(** Two states in which [load] reads the same: tags, children and deferred
    attributes. *)
Definition same_reads (s t : state) : Prop :=
  forall n,
    tagName (DOM.get (page s) n) = tagName (DOM.get (page t) n)
    /\ children (DOM.get (page s) n) = children (DOM.get (page t) n)
    /\ forall from, from ∈ map fst copy_pairs ->
         DOM.getAttribute (page s) n from = DOM.getAttribute (page t) n from.

(** What activation of [el] has achieved in [s] is still so in [t]. *)
Definition leads_to (el : node_id) (s t : state) : Prop :=
  same_reads s t
  /\ (marker_removed s el -> marker_removed t el)
  /\ forall n from to, (from, to) ∈ copy_pairs -> copied s n from to -> copied t n from to.

(** The completion [r], ending in state [t] instead. *)
Definition ending_in {A} (r : completion A) (t : state) : completion A :=
  match r with
  | Return a _ => Return a t
  | Throw e _ => Throw e t
  | Diverge => Diverge
  end.

(** A part of [load]: it ends, keeping what has been achieved; and run again
    in a state in which all it achieves is so already, it takes the same
    course and changes nothing. *)
Definition idempotent_step (el : node_id) {A} (c : M A) : Prop :=
  (forall x, exists x', final (c x) = Some x' /\ leads_to el x x')
  /\ (forall x fin,
        same_reads x fin ->
        (forall x', final (c x) = Some x' -> leads_to el x' fin) ->
        c fin = ending_in (c x) fin).

(** The element carries no marker. *)
Definition unmarked (el : node_id) (s : state) : Prop :=
  DOM.getAttribute (page s) el "postpone" = None.

(** The snapshot that a poll tick computes. *)
Definition snapshot (d : dom) : string := stringifyElements d (discovery d).

(** A poll tick that rebuilds, and one that only reschedules. *)
Definition rebuilding_tick : M unit :=
  getElements ;;
  newElementsString <-
    gets (fun s => stringifyElements (page s) (elements (this s))) ;;
  postpone ;;
  setTimeout newElementsString.

Definition idle_tick : M unit :=
  getElements ;;
  newElementsString <-
    gets (fun s => stringifyElements (page s) (elements (this s))) ;;
  setTimeout newElementsString.











(** Two pages that differ at most in their listeners; two pages that differ
    at most in their listeners and in the [data-id] attributes. *)
Definition without_listeners (x : node) : node := with_listeners (fun _ => []) x.

Definition without_identifier (x : node) : node :=
  with_attributes (delete "data-id") (without_listeners x).

Definition same_attributes (d d' : dom) : Prop :=
  elements_in_order d = elements_in_order d' /\ body d = body d'
  /\ clientHeight d = clientHeight d'
  /\ forall n, without_listeners (DOM.get d n) = without_listeners (DOM.get d' n).

Definition same_markup (d d' : dom) : Prop :=
  elements_in_order d = elements_in_order d' /\ body d = body d'
  /\ clientHeight d = clientHeight d'
  /\ forall n, without_identifier (DOM.get d n) = without_identifier (DOM.get d' n).



(** The scroll container of an event. *)
Definition scrolled (src : event_source) : container :=
  match src with
  | SrcDocument => Window
  | SrcNode n => Element n
  end.

(** The identifier under which a scroll event looks up its group. *)
Definition event_key (d : dom) (src : event_source) : string :=
  match src with
  | SrcDocument => "window"
  | SrcNode n => JS.to_string (DOM.getAttribute d n "data-id")
  end.

End Specification.

End Postpone.

Import Postpone.
Open Scope js_scope.

(** ** Test pages and a test double of the browser *)
Module Fixtures.

(** Selectors of the form [#name] only, resolved through the [id] attribute. *)
Definition by_id (d : dom) (selector : string) : query_result :=
  match selector with
  | String c name =>
      if Ascii.eqb c "#" then
        match List.find (fun n => bool_decide (DOM.getAttribute d n "id" = Some name))
                        (elements_in_order d) with
        | Some n => Found n
        | None => NotFound
        end
      else InvalidSelector
  | EmptyString => InvalidSelector
  end.

(** A rendering of the start tag with its attributes. *)
Definition start_tag (d : dom) (n : node_id) : string :=
  "<" ++ JS.toLowerCase (tagName (DOM.get d n))
      ++ String.concat ""
           (map (fun kv => " " ++ fst kv ++ "='" ++ snd kv ++ "'")
                (map_to_list (attributes (DOM.get d n))))
      ++ ">".

(** A clock that does not advance between two readings. *)
Definition frozen_clock (k : nat) : Z := 1700000000000.

Definition browser : Host :=
  {| querySelector := by_id; outerHTML := start_tag; getTime := frozen_clock |}.

Definition el (tag : string) (attrs : list (string * string))
    (kids : list node_id) (top : Z) (parent : option node_id) : node :=
  Node tag (list_to_map attrs) kids top parent 0 [].

Definition page_of (ns : list node) (height : Z) : dom :=
  Dom (map_seq 0 ns) (seq 0 (length ns)) 0 height [].

Definition fresh (d : dom) : state := State d (Engine [] [] None) 0 0 [] 0.

(** A body with one postponed image below the fold, one image that opted
    out, one unmarked image, and a paragraph that carries a marker. *)
Definition gallery : dom :=
  page_of [ el "BODY" [] [1; 2; 3; 4] 0 None;
            el "IMG" [("postpone", "true"); ("data-src", "a.jpg")] [] 2000 (Some 0);
            el "IMG" [("postpone", "false"); ("data-src", "b.jpg")] [] 10 (Some 0);
            el "IMG" [("data-src", "c.jpg")] [] 20 (Some 0);
            el "P" [("postpone", "")] [] 30 (Some 0) ] 600.

(** A picture with two sources, each with a deferred source and srcset. *)
Definition album : dom :=
  page_of [ el "BODY" [] [1] 0 None;
            el "PICTURE" [("postpone", "")] [2; 3] 100 (Some 0);
            el "SOURCE" [("data-src", "s.jpg"); ("data-srcset", "s.jpg 1x")] [] 0 (Some 0);
            el "SOURCE" [("data-src", "l.jpg"); ("data-srcset", "l.jpg 2x")] [] 0 (Some 0) ]
          600.

(** Two scroll containers without identifier, each with one postponed
    image. *)
Definition panes : dom :=
  page_of [ el "BODY" [] [1; 3] 0 None;
            el "DIV" [("id", "a")] [2] 0 (Some 0);
            el "IMG" [("postpone", ""); ("data-src", "a.jpg");
                      ("data-scroll-element", "#a")] [] 900 (Some 1);
            el "DIV" [("id", "b")] [4] 700 (Some 0);
            el "IMG" [("postpone", ""); ("data-src", "b.jpg");
                      ("data-scroll-element", "#b")] [] 900 (Some 3) ] 600.

(** An image whose scroll container does not exist, followed by an image
    that scrolls with the window. *)
Definition broken : dom :=
  page_of [ el "BODY" [] [1; 2] 0 None;
            el "IMG" [("postpone", ""); ("data-src", "a.jpg");
                      ("data-scroll-element", "#gone")] [] 10 (Some 0);
            el "IMG" [("postpone", ""); ("data-src", "b.jpg")] [] 20 (Some 0) ] 600.

(** A video with two sources. *)
Definition cinema : dom :=
  page_of [ el "BODY" [] [1] 0 None;
            el "VIDEO" [("postpone", "")] [2; 3] 100 (Some 0);
            el "SOURCE" [("data-src", "m.webm")] [] 0 (Some 0);
            el "SOURCE" [("data-src", "m.mp4")] [] 0 (Some 0) ] 600.

(** The state that a call leaves, or [s] if the call does not end. *)
Definition after {A} (c : M A) (s : state) : state :=
  default s (final (c s)).

(** The gallery once the constructor has run. *)
Definition gallery_running : state := after (@init browser) (fresh gallery).

(** A page without any postponed element on which the constructor has run,
    and the same engine after other code has replaced the content of the
    document by that of the gallery. *)
Definition blank : dom := page_of [ el "BODY" [] [] 0 None ] 600.

Definition blank_running : state := after (@init browser) (fresh blank).

Definition gallery_arrived : state := with_page (fun _ => gallery) blank_running.








End Fixtures.


(** * Properties *)

(** ** The primitives on the strings of the source *)
Section Primitives.

Example indexOf_picture :
  JS.indexOf "audio, embed, iframe, img, picture, video" "picture" = 27%Z.
Proof. reflexivity. Qed.

Example indexOf_absent : JS.indexOf "image, tref, use" "picture" = (-1)%Z.
Proof. reflexivity. Qed.

Example bitnot_absent : JS.truthy_num (JS.bitnot (-1)) = false.
Proof. reflexivity. Qed.

Example bitnot_first : JS.truthy_num (JS.bitnot 0) = true.
Proof. reflexivity. Qed.

Example toLowerCase_tag : JS.toLowerCase "PICTURE" = "picture".
Proof. reflexivity. Qed.

Example string_of_timestamp : JS.string_of_num 1700000000000 = "1700000000000".
Proof. reflexivity. Qed.

Example null_key : JS.to_string None = "null".
Proof. reflexivity. Qed.

Example inherited_toString : JS.inherited "toString" = Some (Some 0).
Proof. reflexivity. Qed.

Example inherited_window : JS.inherited "window" = None.
Proof. reflexivity. Qed.

Example array_index_canonical :
  JS.array_index "10" = Some 10%N /\ JS.array_index "010" = None
  /\ JS.array_index "1700000000000" = None /\ JS.array_index "window" = None.
Proof. vm_compute. by repeat split. Qed.

Example for_in_order :
  JS.for_in ["window"; "10"; "1700000000000"; "9"]
  = ["9"; "10"; "window"; "1700000000000"].
Proof. vm_compute. reflexivity. Qed.

End Primitives.

(** ** Element discovery *)
Section Discovery.

Lemma keep_postponed_fold (d : dom) (ms acc : list node_id) :
  fold_left (keep_postponed d) ms acc
  = (acc ++ List.filter
              (fun m => match DOM.getAttribute d m "postpone" with
                        | Some marker => negb (String.eqb marker "false")
                        | None => false
                        end) ms)%list.
Proof.
  revert acc. induction ms as [|m ms IH]; intros acc; simpl.
  - by rewrite app_nil_r.
  - rewrite IH. unfold keep_postponed.
    destruct (DOM.getAttribute d m "postpone") as [marker|]; [|done].
    destruct (String.eqb marker "false"); simpl; [done|].
    by rewrite <- app_assoc.
Qed.

Lemma filter_filter {A} (p q : A -> bool) (l : list A) :
  List.filter q (List.filter p l) = List.filter (fun x => p x && q x) l.
Proof.
  induction l as [|x l IH]; simpl; [done|].
  destruct (p x); simpl; [|done]. destruct (q x); by rewrite IH.
Qed.

Lemma discovery_fold (d : dom) :
  fold_left (keep_postponed d) (querySelectorAll d tag_list) [] = discovery d.
Proof.
  rewrite keep_postponed_fold. simpl.
  unfold querySelectorAll, discovery. by rewrite filter_filter.
Qed.

Lemma eligible_marker (d : dom) (n : node_id) :
  eligible d n = true -> DOM.getAttribute d n "postpone" <> Some "false".
Proof.
  unfold eligible. intros E Hm. rewrite Hm in E.
  apply andb_true_iff in E as [_ E]. discriminate.
Qed.

Lemma getElements_run (s : state) :
  getElements s
  = Return (discovery (page s)) (with_this (set_elements (discovery (page s))) s).
Proof.
  unfold getElements, bind, gets, modify, ret. simpl. by rewrite discovery_fold.
Qed.

Example getElements_gallery :
  exists s', getElements (Fixtures.fresh Fixtures.gallery) = Return [1] s'
             /\ elements (this s') = [1].
Proof. eexists. split; [vm_compute; reflexivity|reflexivity]. Qed.

(** C7. [getElements] returns, and stores in [this.elements], exactly the
    elements of the document whose tag is one of the nine listed in
    [this.tags] and whose [postpone] attribute is present and different from
    the string "false", in document order; no element whose marker is
    "false" is among them. *)
Theorem getElements_discovery (s : state) :
  String.concat ", " tag_list = tags
  /\ getElements s
     = Return (discovery (page s)) (with_this (set_elements (discovery (page s))) s)
  /\ discovery (page s) = List.filter (eligible (page s)) (elements_in_order (page s))
  /\ Forall (fun n => DOM.getAttribute (page s) n "postpone" <> Some "false")
            (discovery (page s)).
Proof.
  split; [reflexivity|]. split; [|split; [reflexivity|]].
  - apply getElements_run.
  - apply Forall_forall. intros n Hn.
    apply list_elem_of_In, filter_In in Hn as [_ E].
    by apply eligible_marker.
Qed.

End Discovery.

(** ** Geometry *)
Section Geometry.

Lemma get_lookup (d : dom) (t : node_id) (x : node) :
  nodes d !! t = Some x -> DOM.get d t = x.
Proof. intros E. unfold DOM.get. by rewrite lookup_total_alt, E. Qed.

Lemma offset_chain_functional (d : dom) t l1 l2 :
  offset_chain d t l1 -> offset_chain d t l2 -> l1 = l2.
Proof.
  intros C1. revert l2.
  induction C1 as [|t Hb|t x l Hx Hb C1 IH]; intros l2 C2;
    inversion C2 as [|t' Hb'|t' x' l' Hx' Hb' C']; subst; try done.
  - apply get_lookup in Hx'. congruence.
  - apply get_lookup in Hx. congruence.
  - f_equal. apply IH. congruence.
Qed.

Lemma offset_chain_suffix (d : dom) t l :
  offset_chain d t l ->
  forall x, x ∈ l -> exists l1 l2, l = (l1 ++ x :: l2)%list /\ offset_chain d (Some x) (x :: l2).
Proof.
  induction 1 as [|t Hb|t x l Hx Hb C IH]; intros y Hy.
  - by apply elem_of_nil in Hy.
  - by apply elem_of_nil in Hy.
  - apply elem_of_cons in Hy as [->|Hy].
    + exists [], l. split; [done|]. by eapply chain_step.
    + destruct (IH y Hy) as (l1 & l2 & -> & C').
      exists (t :: l1), l2. by split.
Qed.

Lemma offset_chain_NoDup (d : dom) t l : offset_chain d t l -> NoDup l.
Proof.
  induction 1 as [|t Hb|t x l Hx Hb C IH]; try apply NoDup_nil_2.
  apply NoDup_cons_2; [|done]. intros Hin.
  destruct (offset_chain_suffix _ _ _ C t Hin) as (l1 & l2 & -> & C').
  assert (C0 : offset_chain d (Some t) (t :: l1 ++ t :: l2)) by by eapply chain_step.
  pose proof (offset_chain_functional _ _ _ _ C0 C') as E.
  apply (f_equal length) in E. simpl in E. rewrite length_app in E. simpl in E. lia.
Qed.

Lemma offset_chain_stored (d : dom) t l :
  offset_chain d t l -> forall x, x ∈ l -> x ∈ base.dom (nodes d).
Proof.
  induction 1 as [|t Hb|t x l Hx Hb C IH]; intros y Hy.
  - by apply elem_of_nil in Hy.
  - by apply elem_of_nil in Hy.
  - apply elem_of_cons in Hy as [->|Hy]; [|by apply IH].
    apply elem_of_dom. by exists x.
Qed.

Lemma offset_chain_length (d : dom) t l :
  offset_chain d t l -> length l <= size (nodes d).
Proof.
  intros C. rewrite <- size_dom.
  rewrite <- (size_list_to_set (C:=gset node_id) l) by by eapply offset_chain_NoDup.
  apply subseteq_size. intros x Hx. apply elem_of_list_to_set in Hx.
  by eapply offset_chain_stored.
Qed.

Lemma offsetTop_loop_chain (d : dom) t l :
  offset_chain d t l ->
  forall fuel o, length l <= fuel ->
    offsetTop_loop fuel d t o = Some (o + sum_offsets d l)%Z.
Proof.
  induction 1 as [|t Hb|t x l Hx Hb C IH]; intros fuel o Hf.
  - destruct fuel; simpl; f_equal; lia.
  - destruct fuel; simpl; rewrite Hb; simpl; f_equal; lia.
  - destruct fuel as [|fuel]; simpl in Hf; [lia|]. simpl.
    rewrite (get_lookup _ _ _ Hx).
    destruct (String.eqb_spec (JS.toLowerCase (tagName x)) "body") as [E|_]; [done|].
    rewrite IH by lia. f_equal. lia.
Qed.

Lemma cumulative_offset_chain (d : dom) t z :
  cumulative_offset d t z -> exists l, offset_chain d t l /\ z = sum_offsets d l.
Proof.
  induction 1 as [|t Hb|t x o Hx Hb C (l & Cl & ->)].
  - exists []. split; [constructor|reflexivity].
  - exists []. split; [by constructor|reflexivity].
  - exists (t :: l). split; [by eapply chain_step|].
    simpl. by rewrite (get_lookup _ _ _ Hx).
Qed.

(** [offsetTop] returns the cumulative top offset whenever the chain of
    offset parents ends. *)
Lemma offsetTop_cumulative (d : dom) t z :
  cumulative_offset d t z -> Postpone.offsetTop d t = Some z.
Proof.
  intros (l & C & ->)%cumulative_offset_chain. unfold Postpone.offsetTop.
  by rewrite (offsetTop_loop_chain _ _ _ C) by by eapply offset_chain_length.
Qed.

Lemma isVisible_run (d : dom) (el : node_id) (c : container) (top offset : Z) :
  cumulative_offset d (Some el) top ->
  cumulative_offset d (Some (container_node d c)) offset ->
  isVisible d el (Some c)
  = Some (clientHeight d + (scrollTop (DOM.get d (container_node d c)) + offset)
          >=? top)%Z.
Proof.
  intros Ht Ho. unfold isVisible. simpl.
  rewrite (offsetTop_cumulative _ _ _ Ht).
  replace (match c with Window => body d | Element n => n end)
    with (container_node d c) by by destruct c.
  by rewrite (offsetTop_cumulative _ _ _ Ho).
Qed.

(** C8. With [top] the cumulative top offset of the element and [offset] that
    of the container's node ([document.body] for the window), [isVisible]
    returns exactly the truth value of
    [clientHeight + (scrollTop + offset) >= top].  There is no lower bound:
    the element is reported visible if and only if its top is at most
    [clientHeight + scrollTop + offset], however far above the scroll
    position it lies. *)
Theorem isVisible_inequality (d : dom) (el : node_id) (c : container) (top offset : Z) :
  cumulative_offset d (Some el) top ->
  cumulative_offset d (Some (container_node d c)) offset ->
  let scrollOffset := (scrollTop (DOM.get d (container_node d c)) + offset)%Z in
  isVisible d el (Some c) = Some (clientHeight d + scrollOffset >=? top)%Z
  /\ (isVisible d el (Some c) = Some true
      <-> (top <= clientHeight d + scrollOffset)%Z).
Proof.
  intros Ht Ho scrollOffset.
  pose proof (isVisible_run d el c top offset Ht Ho) as E. fold scrollOffset in E.
  split; [done|]. rewrite E. split.
  - intros [= Hge]. lia.
  - intros Hle. f_equal. lia.
Qed.

Lemma isVisible_inequality_witness :
  cumulative_offset Fixtures.gallery (Some 1) (2000 + 0)
  /\ cumulative_offset Fixtures.gallery (Some 0) 0
  /\ isVisible Fixtures.gallery 1 (Some Window) = Some false.
Proof.
  assert (Hb : cumulative_offset Fixtures.gallery (Some 0) 0)
    by (apply offset_body; reflexivity).
  assert (Ht : cumulative_offset Fixtures.gallery (Some 1) (2000 + 0)).
  { refine (offset_step Fixtures.gallery 1 (DOM.get Fixtures.gallery 1) 0 _ _ Hb);
      [reflexivity|vm_compute; discriminate]. }
  split; [exact Ht|]. split; [exact Hb|].
  exact (proj1 (isVisible_inequality Fixtures.gallery 1 Window _ _ Ht Hb)).
Defined.

(** An element that lies wholly above the scroll position is visible. *)
Corollary isVisible_scrolled_past (d : dom) (el : node_id) (c : container)
    (top offset : Z) :
  cumulative_offset d (Some el) top ->
  cumulative_offset d (Some (container_node d c)) offset ->
  (0 <= clientHeight d)%Z ->
  (top <= scrollTop (DOM.get d (container_node d c)) + offset)%Z ->
  isVisible d el (Some c) = Some true.
Proof.
  intros Ht Ho Hh Hpast.
  rewrite (isVisible_run d el c top offset Ht Ho). f_equal. lia.
Qed.

End Geometry.

(** ** Reading and writing the page *)
Section Page.

Lemma get_update (d : dom) (n m : node_id) (f : node -> node) :
  DOM.get (update n f d) m = if decide (n = m) then f (DOM.get d n) else DOM.get d m.
Proof.
  unfold DOM.get, update. simpl. case_decide as E.
  - subst. by rewrite lookup_total_insert_eq.
  - by rewrite lookup_total_insert_ne.
Qed.

Lemma getAttribute_setAttribute (d : dom) (n m : node_id) (a b v : string) :
  DOM.getAttribute (DOM.setAttribute n a v d) m b
  = if decide (n = m /\ a = b) then Some v else DOM.getAttribute d m b.
Proof.
  unfold DOM.getAttribute, DOM.setAttribute. rewrite get_update.
  destruct (decide (n = m)) as [->|Hn]; simpl.
  - destruct (decide (a = b)) as [->|Ha].
    + rewrite lookup_insert_eq. by rewrite decide_True.
    + rewrite lookup_insert_ne by done. rewrite decide_False; [done|]. by intros [_ ?].
  - rewrite decide_False; [done|]. by intros [? _].
Qed.

Lemma getAttribute_removeAttribute (d : dom) (n m : node_id) (a b : string) :
  DOM.getAttribute (DOM.removeAttribute n a d) m b
  = if decide (n = m /\ a = b) then None else DOM.getAttribute d m b.
Proof.
  unfold DOM.getAttribute, DOM.removeAttribute. rewrite get_update.
  destruct (decide (n = m)) as [->|Hn]; simpl.
  - destruct (decide (a = b)) as [->|Ha].
    + rewrite lookup_delete_eq. by rewrite decide_True.
    + rewrite lookup_delete_ne by done. rewrite decide_False; [done|]. by intros [_ ?].
  - rewrite decide_False; [done|]. by intros [? _].
Qed.

End Page.

(** ** Invariants of calls *)
Section Invariants.
Context (P : state -> Prop).

Lemma preserves_ret {A} (a : A) : preserves P (ret a).
Proof. by intros s Hs. Qed.

Lemma preserves_throw {A} (e : exn) : preserves P (throw (A:=A) e).
Proof. by intros s Hs. Qed.

Lemma preserves_gets {A} (f : state -> A) : preserves P (gets f).
Proof. by intros s Hs. Qed.

Lemma preserves_modify (f : state -> state) :
  (forall s, P s -> P (f s)) -> preserves P (modify f).
Proof. intros Hf s Hs. by apply Hf. Qed.

Lemma preserves_bind {A B} (c : M A) (k : A -> M B) :
  preserves P c -> (forall a, preserves P (k a)) -> preserves P (bind c k).
Proof.
  intros Hc Hk s Hs. unfold bind. specialize (Hc s Hs).
  destruct (c s) as [a s'|e s'|]; simpl in *; [by apply Hk|done|done].
Qed.

Lemma ends_with_bind {A B} (c : M A) (k : A -> M B) (s : state) :
  ends_with P (c s) -> (forall a, preserves P (k a)) -> ends_with P (bind c k s).
Proof.
  intros Hc Hk. unfold bind.
  destruct (c s) as [a s'|e s'|]; simpl in *; [by apply Hk|done|done].
Qed.

Lemma preserves_if {A} (b : bool) (t e : M A) :
  preserves P t -> preserves P e -> preserves P (if b then t else e).
Proof. by destruct b. Qed.

Lemma preserves_for_each {A} (xs : list A) (body : A -> M unit) :
  (forall x, preserves P (body x)) -> preserves P (for_each xs body).
Proof.
  intros Hb. induction xs as [|x xs IH]; simpl.
  - apply preserves_ret.
  - apply preserves_bind; [apply Hb|by intros _].
Qed.

Lemma preserves_for_count (from count : nat) (body : nat -> M unit) :
  (forall i, preserves P (body i)) -> preserves P (for_count from count body).
Proof.
  intros Hb. revert from. induction count as [|c IH]; intros from; simpl.
  - apply preserves_ret.
  - apply preserves_bind; [apply Hb|by intros _].
Qed.

Lemma preserves_ifM (c : M bool) (t e : M unit) :
  preserves P c -> preserves P t -> preserves P e -> preserves P (ifM c t e).
Proof.
  intros Hc Ht He. apply preserves_bind; [done|]. intros b. by apply preserves_if.
Qed.

Lemma preserves_andM (a b : M bool) :
  preserves P a -> preserves P b -> preserves P (andM a b).
Proof.
  intros Ha Hb. apply preserves_bind; [done|]. intros x.
  apply preserves_if; [done|apply preserves_ret].
Qed.

End Invariants.

(** ** Activation *)
Section Activation.

Ltac invariant_step :=
  lazymatch goal with
  | |- preserves _ (ret _) => apply preserves_ret
  | |- preserves _ (throw _) => apply preserves_throw
  | |- preserves _ (gets _) => apply preserves_gets
  | |- preserves _ (ifM _ _ _) => apply preserves_ifM
  | |- preserves _ (andM _ _) => apply preserves_andM
  | |- preserves _ (for_count _ _ _) => apply preserves_for_count; intro
  | |- preserves _ (for_each _ _) => apply preserves_for_each; intro
  | |- preserves _ (bind _ _) => apply preserves_bind; [|intro]
  | |- preserves _ (if _ then _ else _) => apply preserves_if
  | |- preserves _ (match ?x with _ => _ end) => destruct x
  end.

Ltac invariant :=
  repeat first
    [ invariant_step
    | progress unfold listed, tag_is, has_attribute, has_children, children_length,
        for_children_inclusive, load_media_child, load_picture_child, child_at,
        lowerTagName, Postpone.getAttribute ].

Lemma unmarked_setAttribute (el n : node_id) (a v : string) :
  a <> "postpone" -> preserves (unmarked el) (Postpone.setAttribute n a v).
Proof.
  intros Ha. apply preserves_modify. intros s Hs. unfold unmarked in *. simpl.
  rewrite getAttribute_setAttribute. rewrite decide_False; [done|]. by intros [_ ?].
Qed.

Lemma unmarked_copy (el n : node_id) (from to : string) :
  to <> "postpone" -> preserves (unmarked el) (copy_attribute n from to).
Proof.
  intros Ha. unfold copy_attribute, Postpone.getAttribute.
  apply preserves_bind; [apply preserves_gets|]. intros v.
  by apply unmarked_setAttribute.
Qed.

(** C10. Whatever the tag and the attributes of the element, [load] first
    removes the [postpone] attribute, and all it does afterwards depends on
    the page only as the removal left it; it ends (by returning or by
    throwing) in a state in which the element has no [postpone] attribute,
    because nothing that follows the removal writes it. *)
Theorem load_removes_marker (el : node_id) :
  (exists rest : M node_id,
     forall s, load el s = rest (with_page (DOM.removeAttribute el "postpone") s))
  /\ forall s,
       exists s', final (load el s) = Some s'
                  /\ DOM.getAttribute (page s') el "postpone" = None.
Proof.
  split.
  - exists (ifM (andM (listed "audio, embed, iframe, img, picture, video" el)
                      (has_attribute el "data-src"))
                (copy_attribute el "data-src" "src")
                (ret tt) ;;
            ifM (andM (listed "image, tref, use" el)
                      (has_attribute el "data-xlink:href"))
                (copy_attribute el "data-xlink:href" "xlink:href")
            (ifM (andM (listed "audio, video" el) (has_children el))
                (for_children_inclusive el (load_media_child el))
            (ifM (andM (tag_is el "picture") (has_children el))
                (for_children_inclusive el (load_picture_child el))
                (ret tt))) ;;
            ret el).
    intros s. reflexivity.
  - intros s.
    assert (E : ends_with (unmarked el) (load el s)).
    { unfold load. apply ends_with_bind.
      - unfold unmarked. simpl.
        rewrite getAttribute_removeAttribute. by rewrite decide_True.
      - intros _. invariant; apply unmarked_copy; discriminate. }
    destruct (load el s) as [a s'|e s'|]; simpl in *;
      [by exists s'|by exists s'|done].
Qed.

End Activation.

(** *** The loops over the children *)
Section ActivationOfChildren.
Import Fixtures.

(** C4. Activating the picture of [album], whose two [source] children carry
    [data-src] and [data-srcset], removes the marker and copies both
    attributes of both children, but the call does not return the element:
    the loop runs once more than there are children and throws a
    [TypeError] on [el.children[ 2 ]], which is [undefined].  The same
    happens for the video of [cinema]. *)
Theorem load_picture_sources_throws :
  (exists s',
     load 1 (fresh album) = Throw TypeError s'
     /\ DOM.getAttribute (page s') 1 "postpone" = None
     /\ DOM.getAttribute (page s') 2 "src" = Some "s.jpg"
     /\ DOM.getAttribute (page s') 2 "srcset" = Some "s.jpg 1x"
     /\ DOM.getAttribute (page s') 3 "src" = Some "l.jpg"
     /\ DOM.getAttribute (page s') 3 "srcset" = Some "l.jpg 2x")
  /\ (exists s',
     load 1 (fresh cinema) = Throw TypeError s'
     /\ DOM.getAttribute (page s') 1 "postpone" = None
     /\ DOM.getAttribute (page s') 2 "src" = Some "m.webm"
     /\ DOM.getAttribute (page s') 3 "src" = Some "m.mp4").
Proof.
  split.
  - eexists. split; [vm_compute; reflexivity|].
    split; [reflexivity|]. split; [reflexivity|]. split; [reflexivity|].
    split; reflexivity.
  - eexists. split; [vm_compute; reflexivity|].
    split; [reflexivity|]. split; reflexivity.
Qed.

(** C5. A second activation of the picture of [album] finds the attributes
    as the first one left them and leaves them so, but it throws the same
    [TypeError] as the first. *)
Theorem load_picture_twice_throws :
  exists s1,
    load 1 (fresh album) = Throw TypeError s1
    /\ load 1 s1 = Throw TypeError s1.
Proof.
  eexists. split.
  - vm_compute. reflexivity.
  - vm_compute. reflexivity.
Qed.

End ActivationOfChildren.

(** *** The inclusive bound of the loops over the children *)
Section InclusiveBound.

Lemma returns_ret {A} (K : state -> Prop) (a : A) : returns_keeping K (ret a).
Proof. intros s Hs. by exists a, s. Qed.

Lemma returns_gets {A} (K : state -> Prop) (f : state -> A) :
  returns_keeping K (gets f).
Proof. intros s Hs. by exists (f s), s. Qed.

Lemma returns_bind {A B} (K : state -> Prop) (c : M A) (k : A -> M B) :
  returns_keeping K c -> (forall a, returns_keeping K (k a)) ->
  returns_keeping K (bind c k).
Proof.
  intros Hc Hk s Hs. destruct (Hc s Hs) as (a & s1 & Hrun & Hs1).
  destruct (Hk a s1 Hs1) as (b & s2 & Hrun2 & Hs2).
  exists b, s2. simpl. by rewrite Hrun.
Qed.

Lemma returns_if {A} (K : state -> Prop) (b : bool) (t e : M A) :
  returns_keeping K t -> returns_keeping K e -> returns_keeping K (if b then t else e).
Proof. by destruct b. Qed.

Lemma returns_ifM (K : state -> Prop) (c : M bool) (t e : M unit) :
  returns_keeping K c -> returns_keeping K t -> returns_keeping K e ->
  returns_keeping K (ifM c t e).
Proof.
  intros Hc Ht He. apply returns_bind; [done|]. intros b. by apply returns_if.
Qed.

Lemma returns_andM (K : state -> Prop) (a b : M bool) :
  returns_keeping K a -> returns_keeping K b -> returns_keeping K (andM a b).
Proof.
  intros Ha Hb. apply returns_bind; [done|]. intros x.
  apply returns_if; [done|apply returns_ret].
Qed.

Lemma same_shape_copy (s0 : state) (el n : node_id) (from to : string) :
  returns_keeping (same_shape s0 el) (copy_attribute n from to).
Proof.
  intros s [Ht Hc]. eexists tt, _. split; [reflexivity|].
  unfold same_shape. simpl. unfold DOM.setAttribute. rewrite get_update.
  by case_decide as E; [subst|].
Qed.

Ltac returning :=
  repeat first
    [ lazymatch goal with
      | |- returns_keeping _ (ret _) => apply returns_ret
      | |- returns_keeping _ (gets _) => apply returns_gets
      | |- returns_keeping _ (ifM _ _ _) => apply returns_ifM
      | |- returns_keeping _ (andM _ _) => apply returns_andM
      | |- returns_keeping _ (copy_attribute _ _ _) => apply same_shape_copy
      | |- returns_keeping _ (bind _ _) => apply returns_bind; [|intro]
      | |- returns_keeping _ (if _ then _ else _) => apply returns_if
      end
    | progress unfold listed, tag_is, has_attribute, has_children, children_length,
        lowerTagName, Postpone.getAttribute ].

(** A loop over the indices [i .. n] of [n] children returns for every
    child and throws on the index [n]. *)
Lemma for_count_past_the_end (s0 : state) (el : node_id) (body : node_id -> M unit)
    (count i : nat) (s : state) :
  (forall child, returns_keeping (same_shape s0 el) (body child)) ->
  same_shape s0 el s ->
  i + count = S (length (children (DOM.get (page s0) el))) ->
  i <= length (children (DOM.get (page s0) el)) ->
  exists s', for_count i count (fun j => child <- child_at el j ;; body child) s
             = Throw TypeError s'.
Proof.
  intros Hbody. revert i s. induction count as [|count IH]; intros i s Hs Hsum Hle.
  - lia.
  - simpl. unfold child_at at 1. simpl. destruct Hs as [Ht Hc]. rewrite Hc.
    destruct (children (DOM.get (page s0) el) !! i) as [child|] eqn:Hi; simpl.
    + destruct (Hbody child s) as ([] & s1 & Hrun & Hs1); [done|].
      rewrite Hrun. apply IH; [done|lia|].
      apply lookup_lt_Some in Hi. lia.
    + by exists s.
Qed.

#[local] Arguments for_count : simpl never.

(** Whatever its attributes, a [picture], [audio] or [video] that has a
    child makes [load] throw: the loops over the children run for
    [i <= el.children.length]. *)
Lemma load_throws_on_children (el : node_id) (s : state) :
  JS.toLowerCase (tagName (DOM.get (page s) el)) ∈ ["picture"; "audio"; "video"] ->
  children (DOM.get (page s) el) <> [] ->
  exists s', load el s = Throw TypeError s'.
Proof.
  intros Htag Hkids.
  set (s1 := with_page (DOM.removeAttribute el "postpone") s).
  assert (Hs1 : same_shape s el s1).
  { unfold same_shape, s1. simpl. unfold DOM.removeAttribute. rewrite get_update.
    by rewrite decide_True. }
  assert (Hfirst : returns_keeping (same_shape s el)
            (ifM (andM (listed "audio, embed, iframe, img, picture, video" el)
                       (has_attribute el "data-src"))
                 (copy_attribute el "data-src" "src") (ret tt))) by returning.
  destruct (Hfirst s1 Hs1) as ([] & s2 & Hrun & Hs2).
  unfold load. simpl. fold s1. rewrite Hrun.
  pose proof Hs2 as [Ht Hc].
  set (n := length (children (DOM.get (page s) el))).
  assert (Hn : negb (n =? 0)%nat = true).
  { unfold n. destruct (children (DOM.get (page s) el)); [done|reflexivity]. }
  assert (Hmedia : exists sm,
            for_count 0 (S n) (load_media_child el) s2 = Throw TypeError sm).
  { apply (for_count_past_the_end s el
             (fun child =>
                ifM (andM (tag_is child "source") (has_attribute child "data-src"))
                    (copy_attribute child "data-src" "src") (ret tt)));
      [intros child; returning|done|unfold n; lia|unfold n; lia]. }
  assert (Hpicture : exists sp,
            for_count 0 (S n) (load_picture_child el) s2 = Throw TypeError sp).
  { apply (for_count_past_the_end s el
             (fun child =>
                ifM (tag_is child "source")
                    (ifM (has_attribute child "data-src")
                         (copy_attribute child "data-src" "src") (ret tt) ;;
                     ifM (has_attribute child "data-srcset")
                         (copy_attribute child "data-srcset" "srcset") (ret tt))
                    (ret tt)));
      [intros child; returning|done|unfold n; lia|unfold n; lia]. }
  destruct Hmedia as (sm & Hmedia). destruct Hpicture as (sp & Hpicture).
  unfold ifM, andM, listed, tag_is, lowerTagName, has_attribute, has_children,
    children_length, for_children_inclusive, Postpone.getAttribute.
  repeat (apply elem_of_cons in Htag as [Htag|Htag]);
    [| | |by apply elem_of_nil in Htag];
    repeat (progress (simpl; rewrite ?Ht, ?Hc, ?Htag; fold n; rewrite ?Hn)).
  - rewrite Hpicture. by exists sp.
  - rewrite Hmedia. by exists sm.
  - rewrite Hmedia. by exists sm.
Qed.

End InclusiveBound.

(** *** Activating twice *)
Section Idempotence.
Context (el : node_id).

Lemma same_reads_refl (s : state) : same_reads s s.
Proof. by intros n. Qed.

Lemma same_reads_trans (s t u : state) : same_reads s t -> same_reads t u -> same_reads s u.
Proof.
  intros H1 H2 n. destruct (H1 n) as (Ht1 & Hc1 & Ha1), (H2 n) as (Ht2 & Hc2 & Ha2).
  split; [congruence|]. split; [congruence|]. intros from Hf.
  by rewrite Ha1, Ha2.
Qed.

Lemma leads_to_refl (s : state) : leads_to el s s.
Proof. split; [apply same_reads_refl|]. by split. Qed.

Lemma leads_to_trans (s t u : state) : leads_to el s t -> leads_to el t u -> leads_to el s u.
Proof.
  intros (Hr1 & Hm1 & Hc1) (Hr2 & Hm2 & Hc2).
  split; [by eapply same_reads_trans|]. split; [by intros ?%Hm1%Hm2|].
  intros n from to Hp Hc. by apply Hc2, Hc1.
Qed.

Lemma idempotent_ret {A} (a : A) : idempotent_step el (ret a).
Proof.
  split; [intros x; exists x; split; [done|apply leads_to_refl]|]. by intros x fin _ _.
Qed.

Lemma idempotent_throw {A} (e : exn) : idempotent_step el (throw (A:=A) e).
Proof.
  split; [intros x; exists x; split; [done|apply leads_to_refl]|]. by intros x fin _ _.
Qed.

(** A read of what [load] never writes. *)
Lemma idempotent_read {A} (f : state -> A) :
  (forall x fin, same_reads x fin -> f x = f fin) -> idempotent_step el (gets f).
Proof.
  intros Hf. split; [intros x; exists x; split; [done|apply leads_to_refl]|].
  intros x fin Hr _. simpl. by rewrite (Hf x fin Hr).
Qed.

Lemma idempotent_bind {A B} (c : M A) (k : A -> M B) :
  idempotent_step el c -> (forall a, idempotent_step el (k a)) ->
  idempotent_step el (bind c k).
Proof.
  intros [Hc1 Hc2] Hk. split.
  - intros x. destruct (Hc1 x) as (x1 & Hf1 & Hl1). simpl.
    destruct (c x) as [a s1|e s1|]; simpl in *; [|by exists x1|done].
    injection Hf1 as ->. destruct (proj1 (Hk a) x1) as (x2 & Hf2 & Hl2).
    exists x2. split; [done|]. by eapply leads_to_trans.
  - intros x fin Hr Hfin. simpl in *.
    destruct (c x) as [a s1|e s1|] eqn:Hcx; simpl in *.
    + destruct (proj1 (Hk a) s1) as (x2 & Hf2 & Hl2).
      assert (Hs1 : leads_to el s1 fin)
        by (eapply leads_to_trans; [exact Hl2|by apply Hfin]).
      rewrite (Hc2 x fin Hr); [|rewrite Hcx; simpl; by intros ? [= <-]].
      rewrite Hcx. simpl. apply (proj2 (Hk a)); [apply Hs1|done].
    + rewrite (Hc2 x fin Hr); [|rewrite Hcx; simpl; intros ? [= <-]; by apply Hfin].
      by rewrite Hcx.
    + destruct (Hc1 x) as (x1 & Hf1 & _). by rewrite Hcx in Hf1.
Qed.

Lemma idempotent_if {A} (b : bool) (t e : M A) :
  idempotent_step el t -> idempotent_step el e ->
  idempotent_step el (if b then t else e).
Proof. by destruct b. Qed.

Lemma idempotent_ifM (c : M bool) (t e : M unit) :
  idempotent_step el c -> idempotent_step el t -> idempotent_step el e ->
  idempotent_step el (ifM c t e).
Proof.
  intros Hc Ht He. apply idempotent_bind; [done|]. intros b. by apply idempotent_if.
Qed.

Lemma idempotent_andM (a b : M bool) :
  idempotent_step el a -> idempotent_step el b -> idempotent_step el (andM a b).
Proof.
  intros Ha Hb. apply idempotent_bind; [done|]. intros x.
  apply idempotent_if; [done|apply idempotent_ret].
Qed.

Lemma idempotent_for_count (from count : nat) (body : nat -> M unit) :
  (forall i, idempotent_step el (body i)) ->
  idempotent_step el (for_count from count body).
Proof.
  intros Hb. revert from. induction count as [|c IH]; intros from; simpl.
  - apply idempotent_ret.
  - apply idempotent_bind; [apply Hb|by intros _].
Qed.

Lemma with_page_id (f : dom -> dom) (s : state) : f (page s) = page s -> with_page f s = s.
Proof. destruct s as [p e c b ts n]. unfold with_page. simpl. by intros ->. Qed.

Lemma setAttribute_id (d : dom) (n : node_id) (a v : string) :
  is_Some (nodes d !! n) -> DOM.getAttribute d n a = Some v ->
  DOM.setAttribute n a v d = d.
Proof.
  intros [x Hx] Ha. unfold DOM.getAttribute in Ha. rewrite (get_lookup d n x Hx) in Ha.
  unfold DOM.setAttribute, update. rewrite (get_lookup d n x Hx).
  destruct d as [ns o b h w], x as [tg ats ch ot op st ls]. simpl in *.
  unfold with_attributes. simpl. rewrite (insert_id ats a v Ha).
  by rewrite (insert_id ns n _ Hx).
Qed.

Lemma removeAttribute_id (d : dom) (n : node_id) (a : string) :
  is_Some (nodes d !! n) -> DOM.getAttribute d n a = None ->
  DOM.removeAttribute n a d = d.
Proof.
  intros [x Hx] Ha. unfold DOM.getAttribute in Ha. rewrite (get_lookup d n x Hx) in Ha.
  unfold DOM.removeAttribute, update. rewrite (get_lookup d n x Hx).
  destruct d as [ns o b h w], x as [tg ats ch ot op st ls]. simpl in *.
  unfold with_attributes. simpl. rewrite (delete_id ats a Ha).
  by rewrite (insert_id ns n _ Hx).
Qed.

Lemma stored_update (d : dom) (n m : node_id) (f : node -> node) :
  is_Some (nodes d !! m) -> is_Some (nodes (update n f d) !! m).
Proof.
  intros Hm. unfold update. simpl. destruct (decide (n = m)) as [->|Hne].
  - rewrite lookup_insert_eq. by eexists.
  - by rewrite lookup_insert_ne.
Qed.

Lemma copy_pairs_names (from to : string) :
  (from, to) ∈ copy_pairs ->
  to <> "postpone" /\ from <> "postpone"
  /\ (forall from', from' ∈ map fst copy_pairs -> to <> from')
  /\ (forall from', (from', to) ∈ copy_pairs -> from' = from).
Proof.
  intros Hp. unfold copy_pairs in *.
  repeat (apply elem_of_cons in Hp as [Hp|Hp]); try (by apply elem_of_nil in Hp);
    injection Hp as -> ->; (split; [done|]); (split; [done|]); split;
    intros from' Hf; simpl in Hf;
    repeat (apply elem_of_cons in Hf as [Hf|Hf]); try (by apply elem_of_nil in Hf);
    try (subst; done); by injection Hf as ->.
Qed.

Lemma idempotent_copy (n : node_id) (from to : string) :
  (from, to) ∈ copy_pairs -> idempotent_step el (copy_attribute n from to).
Proof.
  intros Hp. destruct (copy_pairs_names from to Hp) as (Hto & Hfrom & Hreal & Hfun).
  assert (Hfrom_in : from ∈ map fst copy_pairs).
  { apply list_elem_of_fmap. by exists (from, to). }
  assert (Hkeep : forall x m a, a <> to ->
            DOM.getAttribute
              (DOM.setAttribute n to
                 (JS.to_string (DOM.getAttribute (page x) n from)) (page x)) m a
            = DOM.getAttribute (page x) m a).
  { intros x m a Ha. rewrite getAttribute_setAttribute.
    rewrite decide_False; [done|]. intros [_ ?]. congruence. }
  assert (Hdone : forall x,
            copied (with_page (DOM.setAttribute n to
                      (JS.to_string (DOM.getAttribute (page x) n from))) x)
                   n from to).
  { intros x. split; simpl.
    - unfold DOM.setAttribute, update. simpl. rewrite lookup_insert_eq. by eexists.
    - rewrite (Hkeep x n from) by (apply not_eq_sym, Hreal, Hfrom_in).
      rewrite getAttribute_setAttribute. by rewrite decide_True. }
  split.
  - intros x. eexists. split; [reflexivity|]. simpl. split; [|split].
    + intros m. simpl. unfold DOM.setAttribute at 1 2. rewrite get_update.
      split; [by case_decide as E; [subst|]|].
      split; [by case_decide as E; [subst|]|].
      intros from' Hf. symmetry. apply Hkeep. apply not_eq_sym. by apply Hreal.
    + intros [Hs Hm]. split; simpl; [by apply stored_update|].
      by rewrite Hkeep.
    + intros m from' to' Hp' [Hs Hc].
      destruct (copy_pairs_names from' to' Hp') as (_ & _ & Hreal' & Hfun').
      destruct (decide (n = m /\ to = to')) as [[-> ->]|Hne].
      * rewrite (Hfun from' Hp'). apply Hdone.
      * split; simpl; [by apply stored_update|].
        rewrite getAttribute_setAttribute, decide_False by done.
        rewrite Hkeep; [done|]. apply not_eq_sym, Hreal.
        apply list_elem_of_fmap. by exists (from', to').
  - intros x fin Hr Hfin.
    unfold copy_attribute, Postpone.getAttribute, Postpone.setAttribute in *.
    simpl in *.
    destruct (Hfin _ eq_refl) as (_ & _ & Hcopied).
    destruct (Hcopied n from to Hp (Hdone x)) as [Hs Hc].
    f_equal. apply with_page_id. by apply setAttribute_id.
Qed.

Lemma idempotent_remove : idempotent_step el (Postpone.removeAttribute el "postpone").
Proof.
  assert (Hkeep : forall x m a, a <> "postpone" ->
            DOM.getAttribute (DOM.removeAttribute el "postpone" (page x)) m a
            = DOM.getAttribute (page x) m a).
  { intros x m a Ha. rewrite getAttribute_removeAttribute.
    rewrite decide_False; [done|]. intros [_ ?]. congruence. }
  assert (Hdone : forall x,
            marker_removed (with_page (DOM.removeAttribute el "postpone") x) el).
  { intros x. split; simpl.
    - unfold DOM.removeAttribute, update. simpl. rewrite lookup_insert_eq. by eexists.
    - rewrite getAttribute_removeAttribute. by rewrite decide_True. }
  split.
  - intros x. eexists. split; [reflexivity|]. simpl. split; [|split].
    + intros m. simpl. unfold DOM.removeAttribute at 1 2. rewrite get_update.
      split; [by case_decide as E; [subst|]|].
      split; [by case_decide as E; [subst|]|].
      intros from' Hf. symmetry. apply Hkeep. unfold copy_pairs in Hf. simpl in Hf.
      repeat (apply elem_of_cons in Hf as [->|Hf]); try done.
      by apply elem_of_nil in Hf.
    + intros _. apply Hdone.
    + intros m from' to' Hp' [Hs Hc].
      destruct (copy_pairs_names from' to' Hp') as (Hto & Hfrom & _).
      split; simpl; [by apply stored_update|]. by rewrite !Hkeep.
  - intros x fin Hr Hfin. unfold Postpone.removeAttribute in *. simpl in *.
    destruct (Hfin _ eq_refl) as (_ & Hmark & _).
    destruct (Hmark (Hdone x)) as [Hs Hm].
    f_equal. apply with_page_id. by apply removeAttribute_id.
Qed.

Lemma idempotent_tag (n : node_id) : idempotent_step el (lowerTagName n).
Proof.
  apply idempotent_read. intros x fin Hr. by destruct (Hr n) as (-> & _).
Qed.

Lemma idempotent_deferred (n : node_id) (from : string) :
  from ∈ map fst copy_pairs -> idempotent_step el (Postpone.getAttribute n from).
Proof.
  intros Hf. apply idempotent_read. intros x fin Hr.
  destruct (Hr n) as (_ & _ & Ha). by apply Ha.
Qed.

Lemma idempotent_children_length (n : node_id) : idempotent_step el (children_length n).
Proof.
  apply idempotent_read. intros x fin Hr. by destruct (Hr n) as (_ & -> & _).
Qed.

Lemma idempotent_child_at (n : node_id) (i : nat) : idempotent_step el (child_at n i).
Proof.
  apply idempotent_bind.
  - apply idempotent_read. intros x fin Hr. by destruct (Hr n) as (_ & -> & _).
  - intros cs. destruct (cs !! i); [apply idempotent_ret|apply idempotent_throw].
Qed.

Ltac member :=
  repeat first [ by (apply elem_of_cons; left) | apply elem_of_cons; right ].

Ltac idempotent :=
  repeat first
    [ lazymatch goal with
      | |- idempotent_step _ (ret _) => apply idempotent_ret
      | |- idempotent_step _ (ifM _ _ _) => apply idempotent_ifM
      | |- idempotent_step _ (andM _ _) => apply idempotent_andM
      | |- idempotent_step _ (for_count _ _ _) => apply idempotent_for_count; intro
      | |- idempotent_step _ (lowerTagName _) => apply idempotent_tag
      | |- idempotent_step _ (children_length _) => apply idempotent_children_length
      | |- idempotent_step _ (child_at _ _) => apply idempotent_child_at
      | |- idempotent_step _ (Postpone.getAttribute _ _) =>
          apply idempotent_deferred; unfold copy_pairs; simpl; member
      | |- idempotent_step _ (copy_attribute _ _ _) =>
          apply idempotent_copy; unfold copy_pairs; member
      | |- idempotent_step _ (Postpone.removeAttribute _ _) => apply idempotent_remove
      | |- idempotent_step _ (bind _ _) => apply idempotent_bind; [|intro]
      | |- idempotent_step _ (if _ then _ else _) => apply idempotent_if
      end
    | progress unfold listed, tag_is, has_attribute, has_children,
        for_children_inclusive, load_media_child, load_picture_child ].

Lemma load_steps : idempotent_step el (load el).
Proof. unfold load. idempotent. Qed.

(** A second activation takes the course of the first and leaves the page
    as the first left it. *)
Lemma load_idempotent (s s1 : state) :
  final (load el s) = Some s1 -> load el s1 = ending_in (load el s) s1.
Proof.
  intros Hf. destruct load_steps as [Hadv Hrep].
  destruct (Hadv s) as (x' & Hf' & Hr & _). rewrite Hf in Hf'. injection Hf' as <-.
  apply Hrep; [done|]. intros x' Hx'. rewrite Hf in Hx'. injection Hx' as <-.
  apply leads_to_refl.
Qed.

End Idempotence.

(** ** Scroll events *)
Section ScrollEvents.
Import Fixtures.

Lemma scrollHandler_run (s : state) (src : event_source) :
  scrollHandler src s
  = match get_property (event_key (page s) src) (index s) with
    | Own g => for_each (members g) (load_if_visible (scrolled src)) s
    | Inherited length =>
        for_count 0 (default 0 length)
                  (fun _ => load_undefined_if_visible (scrolled src)) s
    | Undefined => Throw TypeError s
    end.
Proof.
  unfold scrollHandler.
  destruct src as [|n]; simpl; unfold index;
    by destruct (get_property _ (scrollElements (this s))).
Qed.

(** A scroll event whose container has no group: the handler reads [length]
    of [undefined]. *)
Lemma scrollHandler_no_group (s : state) (src : event_source) :
  get_property (event_key (page s) src) (index s) = Undefined ->
  scrollHandler src s = Throw TypeError s.
Proof. intros Hk. by rewrite scrollHandler_run, Hk. Qed.

Lemma undefined_loop (c : container) (count from : nat) (s : state) :
  match for_count from count (fun _ => load_undefined_if_visible c) s with
  | Return _ s' | Throw _ s' => s' = s
  | Diverge => True
  end.
Proof.
  revert from. induction count as [|n IH]; intros from; simpl; [done|].
  unfold load_undefined_if_visible at 1. simpl.
  destruct (isVisible_undefined (page s) (Some c)) as [[|]|]; simpl;
    [done|apply IH|done].
Qed.

(** A scroll event whose identifier names a member of [Object.prototype]
    and no group: the handler looks at [undefined] as often as the member's
    [length] says, and changes nothing; it returns when the [length] is 0 or
    missing. *)
Lemma scrollHandler_inherited (s : state) (src : event_source) (length : option nat) :
  get_property (event_key (page s) src) (index s) = Inherited length ->
  match scrollHandler src s with
  | Return _ s' | Throw _ s' => s' = s
  | Diverge => True
  end
  /\ (default 0 length = 0 -> scrollHandler src s = Return tt s).
Proof.
  intros Hk. rewrite scrollHandler_run, Hk. split; [|by intros ->].
  apply undefined_loop.
Qed.

(** C1, as amended.  For a scroll event whose identifier finds nothing in
    [this.scrollElements], neither a group nor a member inherited from
    [Object.prototype], the handler does not return: it throws a [TypeError]
    before it looks at any element, and leaves the group index, the tracked
    elements and the page as they were. *)
Theorem scrollHandler_unregistered (s : state) (src : event_source) :
  get_property (event_key (page s) src) (index s) = Undefined ->
  scrollHandler src s = Throw TypeError s
  /\ final (scrollHandler src s) = Some s.
Proof.
  intros Hk. rewrite (scrollHandler_no_group s src Hk). by split.
Qed.

Lemma scrollHandler_unregistered_witness :
  get_property (event_key (page gallery_running) (SrcNode 4)) (index gallery_running)
  = Undefined
  /\ scrollHandler (SrcNode 4) gallery_running = Throw TypeError gallery_running
  /\ final (scrollHandler (SrcNode 4) gallery_running) = Some gallery_running.
Proof.
  split; [reflexivity|].
  apply (scrollHandler_unregistered gallery_running (SrcNode 4)). reflexivity.
Defined.

(** In the gallery, once the constructor has run, a scroll event from the
    paragraph, which is no scroll container of any tracked element, is not
    ignored: the handler throws. *)
Lemma scrollHandler_unregistered_not_ignored :
  index gallery_running = [("window", Group [1] Window (Some 0))]
  /\ event_key (page gallery_running) (SrcNode 4) = "null"
  /\ scrollHandler (SrcNode 4) gallery_running <> Return tt gallery_running
  /\ scrollHandler (SrcNode 4) gallery_running = Throw TypeError gallery_running.
Proof.
  assert (E : scrollHandler (SrcNode 4) gallery_running
              = Throw TypeError gallery_running)
    by (apply scrollHandler_no_group; reflexivity).
  split; [reflexivity|]. split; [reflexivity|]. split; [|exact E].
  rewrite E. discriminate.
Qed.

(** The paragraph with the identifier [toString]: the lookup finds the
    method that every object inherits, whose [length] is 0, and the handler
    returns. *)
Example scrollHandler_inherited_member :
  let s := with_page (DOM.setAttribute 4 "data-id" "toString") gallery_running in
  lookup_group (event_key (page s) (SrcNode 4)) (index s) = None
  /\ scrollHandler (SrcNode 4) s = Return tt s.
Proof.
  intros s. split; [reflexivity|].
  apply (scrollHandler_inherited s (SrcNode 4) (Some 0)); reflexivity.
Qed.

End ScrollEvents.

(** ** Grouping *)
Section Grouping.
Context `{Host}.

Lemma for_each_app {A} (xs ys : list A) (body : A -> M unit) (s : state) :
  for_each (xs ++ ys) body s = (for_each xs body ;; for_each ys body) s.
Proof.
  revert s. induction xs as [|x xs IH]; intros s; [reflexivity|].
  simpl. unfold bind in *.
  destruct (body x s) as [[] s'|e s'|]; [apply IH|reflexivity|reflexivity].
Qed.

(** The element whose selector matches nothing stops the loop. *)
Lemma group_element_missing (s : state) (el : node_id) (selector : string) :
  DOM.getAttribute (page s) el "data-scroll-element" = Some selector ->
  selector <> "" ->
  querySelector (page s) selector = NotFound ->
  group_element el s = Throw TypeError s.
Proof.
  intros Ha Hne Hq. unfold group_element, locate, Postpone.getAttribute. simpl.
  rewrite Ha. simpl.
  destruct (String.eqb_spec selector "") as [?|_]; [done|]. simpl. by rewrite Hq.
Qed.

(** C2, as amended.  When the loop of [getScrollElements] reaches a tracked
    element whose [data-scroll-element] selector matches no node, it throws a
    [TypeError] (it calls [getAttribute] on [null]): the elements before it
    have been grouped, the element itself and all elements after it have
    not. *)
Theorem getScrollElements_missing_container
    (s s1 : state) (before later : list node_id) (el : node_id) (selector : string) :
  elements (this s) = (before ++ el :: later)%list ->
  for_each before group_element (with_this (set_scrollElements []) s) = Return tt s1 ->
  DOM.getAttribute (page s1) el "data-scroll-element" = Some selector ->
  selector <> "" ->
  querySelector (page s1) selector = NotFound ->
  getScrollElements s = Throw TypeError s1.
Proof.
  intros He Hb Ha Hne Hq. unfold getScrollElements. simpl.
  rewrite He, for_each_app. simpl. rewrite Hb. simpl.
  by rewrite (group_element_missing s1 el selector).
Qed.

End Grouping.

Section GroupingExamples.
Import Fixtures.

Lemma getScrollElements_missing_container_witness :
  let s := State broken (Engine [2; 1] [] None) 0 0 [] 0 in
  let s1 := State broken (Engine [2; 1] [("window", Group [2] Window None)] None)
                  0 0 [] 0 in
  elements (this s) = ([2] ++ 1 :: [])%list
  /\ for_each [2] (@group_element browser) (with_this (set_scrollElements []) s)
     = Return tt s1
  /\ DOM.getAttribute (page s1) 1 "data-scroll-element" = Some "#gone"
  /\ "#gone" <> ""
  /\ @querySelector browser (page s1) "#gone" = NotFound
  /\ @getScrollElements browser s = Throw TypeError s1.
Proof.
  intros s s1.
  assert (H1 : elements (this s) = ([2] ++ 1 :: [])%list) by reflexivity.
  assert (H2 : for_each [2] (@group_element browser)
                 (with_this (set_scrollElements []) s) = Return tt s1)
    by reflexivity.
  assert (H3 : DOM.getAttribute (page s1) 1 "data-scroll-element" = Some "#gone")
    by reflexivity.
  assert (H4 : "#gone" <> "") by discriminate.
  assert (H5 : @querySelector browser (page s1) "#gone" = NotFound) by reflexivity.
  split; [exact H1|]. split; [exact H2|]. split; [exact H3|].
  split; [exact H4|]. split; [exact H5|].
  exact (@getScrollElements_missing_container browser s s1 [2] [] 1 "#gone"
           H1 H2 H3 H4 H5).
Defined.

(** In [broken] the first image names a scroll container that does not
    exist.  Grouping throws at that image; the second image, which has no
    selector at all, is left out of the index. *)
Lemma getScrollElements_missing_container_raises :
  exists s',
    (getElements ;; @getScrollElements browser) (fresh broken) = Throw TypeError s'
    /\ elements (this s') = [1; 2]
    /\ @querySelector browser broken "#gone" = NotFound
    /\ index s' = [].
Proof.
  eexists. split; [vm_compute; reflexivity|].
  split; [reflexivity|]. split; reflexivity.
Qed.

(** C9. In [panes] the two scroll containers have no identifier, and the
    clock does not advance between the two readings of one grouping pass.
    Both containers are given the same identifier, which is written to both
    nodes, and the two images land in a single group whose container is the
    first of the two. *)
Theorem getScrollElements_identifiers_collide :
  DOM.getAttribute panes 1 "data-id" = None
  /\ DOM.getAttribute panes 3 "data-id" = None
  /\ exists s',
       (getElements ;; @getScrollElements browser) (fresh panes) = Return tt s'
       /\ DOM.getAttribute (page s') 1 "data-id" = Some "1700000000000"
       /\ DOM.getAttribute (page s') 3 "data-id" = Some "1700000000000"
       /\ index s' = [("1700000000000", Group [2; 4] (Element 1) None)].
Proof.
  split; [reflexivity|]. split; [reflexivity|].
  eexists. split; [vm_compute; reflexivity|].
  split; [reflexivity|]. split; reflexivity.
Qed.

End GroupingExamples.

(** ** Polling *)
Section Polling.
Context `{Host}.

Lemma watch_unfold (elementsString : option string) (s : state) :
  watch elementsString s
  = if JS.truthy_str elementsString
       && negb (String.eqb (JS.to_string elementsString) (snapshot (page s)))
    then rebuilding_tick s else idle_tick s.
Proof.
  unfold watch, rebuilding_tick, idle_tick, snapshot. simpl.
  rewrite !discovery_fold.
  by destruct (JS.truthy_str elementsString
               && negb (String.eqb (JS.to_string elementsString)
                                   (stringifyElements (page s) (discovery (page s))))).
Qed.

(** A previous snapshot that is not empty and differs from the new one
    makes the tick rebuild. *)
Lemma watch_rebuilds (previous : string) (s : state) :
  previous <> "" -> previous <> snapshot (page s) ->
  watch (Some previous) s = rebuilding_tick s.
Proof.
  intros Hne Hd. rewrite watch_unfold. simpl.
  destruct (String.eqb_spec previous "") as [?|_]; [done|].
  destruct (String.eqb_spec previous (snapshot (page s))) as [?|_]; [done|].
  done.
Qed.

(** An empty previous snapshot never does, whatever the new one is; nor
    does the first call, which has no previous snapshot. *)
Lemma watch_after_empty (s : state) : watch (Some "") s = idle_tick s.
Proof. by rewrite watch_unfold. Qed.

Lemma watch_first (s : state) : watch None s = idle_tick s.
Proof. by rewrite watch_unfold. Qed.

End Polling.

Section PollingExamples.
Import Fixtures.

(** C3. The engine was started on a page without candidates, so the pending
    timeout carries the empty string as previous snapshot; then the content
    of the gallery arrives, with one postponed image, and the new snapshot
    differs.  The tick does not rebuild: no group is made and no listener is
    bound, where a tick that rebuilds makes the window group and binds its
    listener. *)
Theorem watch_ignores_change_after_empty_snapshot :
  timers blank_running = [(1, "")]
  /\ @snapshot browser (page gallery_arrived) <> ""
  /\ (exists s',
        @tick browser 1 gallery_arrived = Return tt s'
        /\ elements (this s') = [1]
        /\ index s' = []
        /\ window_listeners (page s') = [])
  /\ (exists s',
        (getElements ;; @postpone browser) gallery_arrived = Return tt s'
        /\ index s' = [("window", Group [1] Window (Some 0))]
        /\ window_listeners (page s') = [0]).
Proof.
  split; [reflexivity|]. split; [vm_compute; discriminate|]. split.
  - eexists. split; [vm_compute; reflexivity|].
    split; [reflexivity|]. split; reflexivity.
  - eexists. split; [vm_compute; reflexivity|]. split; reflexivity.
Qed.

End PollingExamples.

(** ** Rebinding *)

(** *** The index as an association list *)
Section Index.










End Index.

(** *** Pages that differ in what selectors cannot see *)
Section Pages.


Lemma same_attributes_sym (d d' : dom) : same_attributes d d' -> same_attributes d' d.
Proof. intros (?&?&?&?). by repeat split. Qed.



Lemma same_markup_sym (d d' : dom) : same_markup d d' -> same_markup d' d.
Proof. intros (?&?&?&?). by repeat split. Qed.











End Pages.

(** *** One grouping pass *)
Section GroupingPass.
Context `{Host}.

Lemma truthy_str_Some (v : string) : JS.truthy_str (Some v) = true <-> v <> "".
Proof.
  simpl. destruct (String.eqb_spec v "") as [->|Hv]; simpl; split; try done.
Qed.








End GroupingPass.

Section GroupingLoop.
Context `{Host}.






End GroupingLoop.

(** *** Removing and adding listeners *)
Section Listeners.















End Listeners.

(** *** The loop that removes the listeners *)
Section Unbinding.







End Unbinding.

(** *** The loop that adds the listeners *)
Section Binding.




End Binding.

(** *** Two cycles in a row *)
Section Rebinding.
Context `{Host}.






End Rebinding.

Section RebindingExample.
Import Fixtures.








End RebindingExample.
